(** * Cloud Hypervisor micro-VM controller: a shallow embedding

    The development follows [vm_controller.py].  The class
    [CloudHypervisorVM] becomes a record [Self] threaded through a small
    state-and-exception monad; every call that leaves the Python process
    (file system, subprocess, clock, HTTP session, logger) goes through an
    operating-system interface [OS] and is recorded in a trace of events, so
    that statements such as "no subprocess is spawned" or "no connection is
    attempted" are statements about that trace. *)

From Stdlib Require Import String Ascii List ZArith QArith Bool Lia Lqa.
From Stdlib Require Import DecimalString.
Import ListNotations.

Local Close Scope Q_scope.
Local Open Scope list_scope.
Local Open Scope string_scope.

(** ** Python values

    The values a configuration can hold: the JSON-native Python types.
    A [str] is a sequence of code points below 256; a [float] is identified
    by its [repr] (the shortest literal that reads back as the same float);
    a [dict] keeps its entries in insertion order, with [str] keys. *)

#[local] Unset Elimination Schemes.

Inductive pyval : Type :=
| PNone
| PBool (b : bool)
| PInt (z : Z)
| PFloat (r : string)
| PStr (s : string)
| PList (l : list pyval)
| PDict (d : list (string * pyval)).

#[local] Set Elimination Schemes.

Definition dict : Type := list (string * pyval).

Definition is_None (v : pyval) : bool :=
  match v with PNone => true | _ => false end.

(** *** [str] and [repr] *)

Definition join (sep : string) (l : list string) : string := String.concat sep l.

Definition hex_digit (n : N) : ascii :=
  match n with
  | 0%N => "0" | 1%N => "1" | 2%N => "2" | 3%N => "3" | 4%N => "4"
  | 5%N => "5" | 6%N => "6" | 7%N => "7" | 8%N => "8" | 9%N => "9"
  | 10%N => "a" | 11%N => "b" | 12%N => "c" | 13%N => "d" | 14%N => "e"
  | _ => "f"
  end%char.

Definition hex_escape (c : ascii) : string :=
  let n := N_of_ascii c in
  String "\" (String "x" (String (hex_digit (n / 16)) (String (hex_digit (n mod 16)) ""))).

(** [str.isprintable] on one code point below 256. *)
Definition isprintable (c : ascii) : bool :=
  let n := N_of_ascii c in
  ((32 <=? n) && (n <=? 126) || (161 <=? n) && negb (n =? 173))%N.

Fixpoint contains_char (c : ascii) (s : string) : bool :=
  match s with
  | EmptyString => false
  | String a s' => Ascii.eqb a c || contains_char c s'
  end.

Definition escape_char (quote c : ascii) : string :=
  if Ascii.eqb c quote || Ascii.eqb c "\"%char then String "\" (String c "")
  else if Ascii.eqb c "009"%char then "\t"
  else if Ascii.eqb c "010"%char then "\n"
  else if Ascii.eqb c "013"%char then "\r"
  else if isprintable c then String c ""
  else hex_escape c.

Fixpoint escape_string (quote : ascii) (s : string) : string :=
  match s with
  | EmptyString => ""
  | String c s' => escape_char quote c ++ escape_string quote s'
  end.

(** [repr] of a [str]: single quotes, unless the text has a single quote and
    no double quote. *)
Definition repr_str (s : string) : string :=
  let quote :=
    if contains_char "'"%char s && negb (contains_char "034"%char s)
    then "034"%char else "'"%char in
  String quote (escape_string quote s ++ String quote "").

Definition str_int (z : Z) : string := NilZero.string_of_int (Z.to_int z).

Fixpoint py_repr (v : pyval) : string :=
  match v with
  | PNone => "None"
  | PBool true => "True"
  | PBool false => "False"
  | PInt z => str_int z
  | PFloat r => r
  | PStr s => repr_str s
  | PList l => "[" ++ join ", " (map py_repr l) ++ "]"
  | PDict d =>
      "{" ++ join ", " (map (fun kv => let '(k, x) := kv in
                                        repr_str k ++ ": " ++ py_repr x) d) ++ "}"
  end.

(** [str(v)], which is also what an f-string placeholder [{v}] renders. *)
Definition py_str (v : pyval) : string :=
  match v with
  | PStr s => s
  | _ => py_repr v
  end.

(** *** [dict] operations *)

(** [d[k] = v]: an existing key keeps its position, a new key goes last. *)
Fixpoint dict_set (k : string) (v : pyval) (d : dict) : dict :=
  match d with
  | [] => [(k, v)]
  | (k', v') :: d' =>
      if String.eqb k' k then (k', v) :: d' else (k', v') :: dict_set k v d'
  end.

(** [d.update(kwargs)] *)
Definition dict_update (d kwargs : dict) : dict :=
  fold_left (fun acc kv => dict_set (fst kv) (snd kv) acc) kwargs d.

(** The representation invariant of a Python [dict]: no key occurs twice,
    at any depth. *)
Fixpoint py_wf (v : pyval) : Prop :=
  match v with
  | PList l => fold_right (fun x acc => py_wf x /\ acc) True l
  | PDict d =>
      NoDup (map fst d) /\
      fold_right (fun kv acc => py_wf (snd kv) /\ acc) True d
  | _ => True
  end.

(** ** JSON documents

    What [json.dump] writes and [json.load] reads, as a document tree; the
    concrete text ([indent=2]) is not modelled. *)

#[local] Unset Elimination Schemes.

Inductive json : Type :=
| JNull
| JBool (b : bool)
| JInt (z : Z)
| JFloat (r : string)
| JString (s : string)
| JArray (l : list json)
| JObject (members : list (string * json)).

#[local] Set Elimination Schemes.

(** The encoder's type mapping. *)
Fixpoint to_json (v : pyval) : json :=
  match v with
  | PNone => JNull
  | PBool b => JBool b
  | PInt z => JInt z
  | PFloat r => JFloat r
  | PStr s => JString s
  | PList l => JArray (map to_json l)
  | PDict d => JObject (map (fun kv => let '(k, x) := kv in (k, to_json x)) d)
  end.

(** The decoder's type mapping; an object is read member by member into a
    [dict], so a repeated name keeps its first position and its last value. *)
Fixpoint of_json (j : json) : pyval :=
  match j with
  | JNull => PNone
  | JBool b => PBool b
  | JInt z => PInt z
  | JFloat r => PFloat r
  | JString s => PStr s
  | JArray l => PList (map of_json l)
  | JObject ms =>
      PDict (fold_left (fun acc kv => dict_set (fst kv) (snd kv) acc)
                       (map (fun kv => let '(k, x) := kv in (k, of_json x)) ms) [])
  end.

(** ** Rendering the command line ([build_command]) *)

(** [",".join([f"{k}={v}" for k, v in disk.items()])] *)
Definition disk_str (disk : dict) : string :=
  join "," (map (fun kv => fst kv ++ "=" ++ py_str (snd kv)) disk).

(** [cmd.extend(tokens)] *)
Definition extend (cmd tokens : list string) : list string := (cmd ++ tokens)%list.

(** The inner [for disk in value] loop, extending [cmd] in place. *)
Definition extend_disks (key : string) (value : list pyval) (cmd : list string)
  : list string :=
  fold_left
    (fun cmd disk =>
       match disk with
       | PDict d => extend cmd ["--" ++ key; disk_str d]
       | _ => extend cmd ["--" ++ key; py_str disk]
       end)
    value cmd.

(** The body of [for key, value in self.config.items()]; the first branch
    is [key == "disk" and isinstance(value, list)]. *)
Definition extend_entry (cmd : list string) (entry : string * pyval) : list string :=
  let '(key, value) := entry in
  match value with
  | PList l =>
      if String.eqb key "disk" then extend_disks key l cmd
      else extend cmd ["--" ++ key; py_str value]
  | _ => extend cmd ["--" ++ key; py_str value]
  end.

Definition build_command_of (config : dict) : list string :=
  fold_left extend_entry config ["cloud-hypervisor"].

(** The spec's [renderArguments], following its words: one [--<key> <value>]
    pair per scalar entry; for a list-valued entry, one comma-joined
    [key=value,...] token per element, each paired with the same flag. *)
Definition renderArguments_entry (entry : string * pyval) : list string :=
  let '(key, value) := entry in
  match value with
  | PList l =>
      flat_map (fun elem =>
                  match elem with
                  | PDict d => ["--" ++ key; disk_str d]
                  | _ => ["--" ++ key; py_str elem]
                  end) l
  | _ => ["--" ++ key; py_str value]
  end.

Definition renderArguments_spec (config : dict) : list string :=
  flat_map renderArguments_entry config.

(** What one entry adds to the command line: the spec's rendering, except
    that a list under a key other than [disk] is one pair like any scalar. *)
Definition entry_tokens (entry : string * pyval) : list string :=
  match snd entry with
  | PList _ =>
      if String.eqb (fst entry) "disk" then renderArguments_entry entry
      else ["--" ++ fst entry; py_str (snd entry)]
  | _ => renderArguments_entry entry
  end.

(** ** The world outside the Python process *)

(** A [Popen] object, identified by the pid of its child. *)
Definition handle : Type := Z.

(** A raised exception: its class and its [str].  Only subclasses of
    [Exception] occur, which is what the library calls below raise;
    asynchronous interrupts ([KeyboardInterrupt]) are outside the model. *)
Record exn : Type := { exn_class : string; exn_msg : string }.

Definition AttributeError (msg : string) : exn :=
  {| exn_class := "AttributeError"; exn_msg := msg |}.

(** What a call into the operating system or a library does. *)
Inductive answer (X : Type) : Type :=
| Returns (x : X)
| Raises (e : exn)
| Blocks.

Arguments Returns {X} x.
Arguments Raises {X} e.
Arguments Blocks {X}.

(** A [requests] response: [json_body] is [None] when [response.json()]
    raises. *)
Record response : Type :=
  { status_code : Z; text : string; json_body : option pyval }.

Inductive level : Type := INFO | WARNING | ERROR.

(** The calls the controller makes, in the order it makes them. *)
Inductive event : Type :=
| EvExists (path : string)
| EvRemove (path : string)
| EvPopen (cmd : list string)
| EvTime
| EvSleep (secs : Q)
| EvPoll (h : handle)
| EvWait (h : handle) (timeout : option Q)
| EvTerminate (h : handle)
| EvCommunicate (h : handle) (timeout : option Q)
| EvHttp (method url : string) (body : pyval)
| EvWriteJson (path : string) (doc : json)
| EvReadJson (path : string)
| EvLog (lvl : level) (msg : string).

(** The operating system as the controller sees it.  Every call may change
    the world: the hypervisor runs concurrently with the controller. *)
Class OS (W : Type) : Type :=
  { os_path_exists : string -> W -> bool * W;
    os_remove : string -> W -> answer unit * W;
    os_popen : list string -> W -> answer handle * W;
    os_time : W -> Q * W;
    os_sleep : Q -> W -> W;
    os_poll : handle -> W -> option Z * W;
    os_wait : handle -> option Q -> W -> answer Z * W;
    os_terminate : handle -> W -> answer unit * W;
    os_communicate : handle -> option Q -> W -> answer (string * string) * W;
    os_http : string -> string -> pyval -> W -> answer response * W;
    os_write_json : string -> json -> W -> answer unit * W;
    os_read_json : string -> W -> answer json * W }.

(** ** The controller object *)

Record Self : Type :=
  { vm_name : string;
    config_path : string;
    api_socket : string;
    process : option handle;
    config : pyval }.

(** [__init__(vm_name, config_path)] *)
Definition init (name : string) (path : option string) : Self :=
  let sock := "/tmp/" ++ name ++ "-api.sock" in
  {| vm_name := name;
     config_path :=
       match path with
       | Some p => if String.eqb p "" then "/tmp/" ++ name ++ "-config.json" else p
       | None => "/tmp/" ++ name ++ "-config.json"
       end;
     api_socket := sock;
     process := None;
     config :=
       PDict [("kernel", PStr "./vmlinux");
              ("disk", PList [PDict [("path", PStr "./rootfs.img")]]);
              ("cmdline", PStr "console=hvc0 root=/dev/vda rw init=/init");
              ("cpus", PStr "boot=2");
              ("memory", PStr "size=256M");
              ("serial", PStr "tty");
              ("console", PStr "off");
              ("api-socket", PStr sock)] |}.

Definition set_process (p : option handle) (s : Self) : Self :=
  {| vm_name := vm_name s; config_path := config_path s;
     api_socket := api_socket s; process := p; config := config s |}.

Definition set_config (c : pyval) (s : Self) : Self :=
  {| vm_name := vm_name s; config_path := config_path s;
     api_socket := api_socket s; process := process s; config := c |}.

(** [str.replace(old, new)] for a one-character [old]. *)
Fixpoint replace (old : ascii) (new : string) (s : string) : string :=
  match s with
  | EmptyString => ""
  | String c s' =>
      (if Ascii.eqb c old then new else String c "") ++ replace old new s'
  end.

Definition Qltb (x y : Q) : bool := negb (Qle_bool y x).

(** ** The monad: controller state, world, trace, exceptions *)

Record state (W : Type) : Type :=
  { self : Self; world : W; trace : list event }.

Arguments self {W} _.
Arguments world {W} _.
Arguments trace {W} _.

(** How a method call ends: it returns, raises, never comes back from a
    call, or the model's loop bound is exhausted. *)
Inductive res (A : Type) : Type :=
| Ok (a : A)
| Exc (e : exn)
| Blocked
| OutOfFuel.

Arguments Ok {A} a.
Arguments Exc {A} e.
Arguments Blocked {A}.
Arguments OutOfFuel {A}.

Definition M (W A : Type) : Type := state W -> res A * state W.

Declare Scope py_scope.
Delimit Scope py_scope with py.

Section Controller.

Context {W : Type} {os : OS W}.

Definition ret {A} (a : A) : M W A := fun st => (Ok a, st).

Definition bind {A B} (c : M W A) (k : A -> M W B) : M W B :=
  fun st =>
    match c st with
    | (Ok a, st') => k a st'
    | (Exc e, st') => (Exc e, st')
    | (Blocked, st') => (Blocked, st')
    | (OutOfFuel, st') => (OutOfFuel, st')
    end.

Notation "x <- c ;; k" := (bind c (fun x => k))
  (at level 61, c at next level, right associativity) : py_scope.
Notation "c ;; k" := (bind c (fun _ => k))
  (at level 61, right associativity) : py_scope.

Local Open Scope py_scope.

Definition raise {A} (e : exn) : M W A := fun st => (Exc e, st).

Definition out_of_fuel {A} : M W A := fun st => (OutOfFuel, st).

(** [try: body / except Exception as e: handler e] *)
Definition try_except {A} (body : M W A) (handler : exn -> M W A) : M W A :=
  fun st =>
    match body st with
    | (Exc e, st') => handler e st'
    | other => other
    end.

(** [try: body / finally: final] *)
Definition try_finally {A} (body : M W A) (final : M W unit) : M W A :=
  fun st =>
    match body st with
    | (Ok a, st') =>
        match final st' with
        | (Ok _, st'') => (Ok a, st'')
        | (Exc e, st'') => (Exc e, st'')
        | (Blocked, st'') => (Blocked, st'')
        | (OutOfFuel, st'') => (OutOfFuel, st'')
        end
    | (Exc e, st') =>
        match final st' with
        | (Ok _, st'') => (Exc e, st'')
        | (Exc e', st'') => (Exc e', st'')
        | (Blocked, st'') => (Blocked, st'')
        | (OutOfFuel, st'') => (OutOfFuel, st'')
        end
    | other => other
    end.

Definition get_self : M W Self := fun st => (Ok (self st), st).

Definition modify_self (f : Self -> Self) : M W unit :=
  fun st => (Ok tt, {| self := f (self st); world := world st; trace := trace st |}).

Definition emit (ev : event) (w : W) (st : state W) : state W :=
  {| self := self st; world := w; trace := (trace st ++ [ev])%list |}.

(** A call that always returns. *)
Definition sys {X} (ev : event) (f : W -> X * W) : M W X :=
  fun st => let '(x, w) := f (world st) in (Ok x, emit ev w st).

(** A call that may raise or block. *)
Definition sys_answer {X} (ev : event) (f : W -> answer X * W) : M W X :=
  fun st =>
    let '(a, w) := f (world st) in
    match a with
    | Returns x => (Ok x, emit ev w st)
    | Raises e => (Exc e, emit ev w st)
    | Blocks => (Blocked, emit ev w st)
    end.

Definition path_exists (p : string) : M W bool := sys (EvExists p) (os_path_exists p).
Definition remove (p : string) : M W unit := sys_answer (EvRemove p) (os_remove p).
Definition Popen (cmd : list string) : M W handle := sys_answer (EvPopen cmd) (os_popen cmd).
Definition time : M W Q := sys EvTime os_time.
Definition sleep (secs : Q) : M W unit :=
  sys (EvSleep secs) (fun w => (tt, os_sleep secs w)).
Definition poll (h : handle) : M W (option Z) := sys (EvPoll h) (os_poll h).
Definition wait (h : handle) (timeout : option Q) : M W Z :=
  sys_answer (EvWait h timeout) (os_wait h timeout).
Definition terminate (h : handle) : M W unit :=
  sys_answer (EvTerminate h) (os_terminate h).
Definition communicate (h : handle) (timeout : option Q) : M W (string * string) :=
  sys_answer (EvCommunicate h timeout) (os_communicate h timeout).
(** [self.session.get(url)], [.put(url, json=data)], [.post(url, json=data)] *)
Definition session_get (url : string) : M W response :=
  sys_answer (EvHttp "GET" url PNone) (os_http "GET" url PNone).
Definition session_put (url : string) (data : pyval) : M W response :=
  sys_answer (EvHttp "PUT" url data) (os_http "PUT" url data).
Definition session_post (url : string) (data : pyval) : M W response :=
  sys_answer (EvHttp "POST" url data) (os_http "POST" url data).
Definition write_json (p : string) (doc : json) : M W unit :=
  sys_answer (EvWriteJson p doc) (os_write_json p doc).
Definition read_json (p : string) : M W json :=
  sys_answer (EvReadJson p) (os_read_json p).

(** [logger.info / warning / error]: recorded, no effect on the world. *)
Definition log (lvl : level) (msg : string) : M W unit :=
  fun st => (Ok tt, emit (EvLog lvl msg) (world st) st).

(** [self.process.<attr>]: an attribute of [None] raises. *)
Definition the_process (attr : string) : M W handle :=
  s <- get_self ;;
  match process s with
  | Some h => ret h
  | None => raise (AttributeError ("'NoneType' object has no attribute '" ++ attr ++ "'"))
  end.

(** [self.config.<attr>], for the two [dict] methods the class calls. *)
Definition the_config_dict (attr : string) : M W dict :=
  s <- get_self ;;
  match config s with
  | PDict d => ret d
  | _ => raise (AttributeError ("object has no attribute '" ++ attr ++ "'"))
  end.

(** *** Configuration store *)

Definition update_config (kwargs : dict) : M W pyval :=
  d <- the_config_dict "update" ;;
  modify_self (set_config (PDict (dict_update d kwargs))) ;;
  log INFO ("Updated configuration: " ++ py_str (PDict kwargs)) ;;
  ret PNone.

Definition save_config : M W pyval :=
  s <- get_self ;;
  write_json (config_path s) (to_json (config s)) ;;
  log INFO ("Configuration saved to " ++ config_path s) ;;
  ret PNone.

Definition load_config : M W pyval :=
  s <- get_self ;;
  e <- path_exists (config_path s) ;;
  if e : bool then
    doc <- read_json (config_path s) ;;
    modify_self (set_config (of_json doc)) ;;
    log INFO ("Configuration loaded from " ++ config_path s) ;;
    ret PNone
  else
    log WARNING ("Config file " ++ config_path s ++ " not found, using defaults") ;;
    ret PNone.

Definition build_command : M W (list string) :=
  d <- the_config_dict "items" ;;
  ret (build_command_of d).

(** *** API transport *)

(** [f"http+unix://{self.api_socket.replace('/', '%2F')}{endpoint}"] *)
Definition api_url (sock endpoint : string) : string :=
  "http+unix://" ++ replace "/"%char "%2F" sock ++ endpoint.

(** The tail of [api_request], once a response has arrived. *)
Definition decode_response (response : response) : M W pyval :=
  if (status_code response =? 200)%Z then
    match json_body response with
    | Some v => ret v
    | None => ret (PStr (text response))
    end
  else
    log ERROR ("API request failed: " ++ str_int (status_code response)
                 ++ " - " ++ text response) ;;
    ret PNone.

Definition api_request (method endpoint : string) (data : pyval) : M W pyval :=
  s <- get_self ;;
  e <- path_exists (api_socket s) ;;
  if negb e then
    log ERROR "API socket not available" ;;
    ret PNone
  else
    let url := api_url (api_socket s) endpoint in
    try_except
      (if String.eqb method "GET" then
         response <- session_get url ;; decode_response response
       else if String.eqb method "PUT" then
         response <- session_put url data ;; decode_response response
       else if String.eqb method "POST" then
         response <- session_post url data ;; decode_response response
       else
         log ERROR ("Unsupported method: " ++ method) ;;
         ret PNone)
      (fun e =>
         log ERROR ("API request error: " ++ exn_msg e) ;;
         ret PNone).

Definition pause : M W pyval := api_request "PUT" "/api/v1/vm.pause" PNone.
Definition resume : M W pyval := api_request "PUT" "/api/v1/vm.resume" PNone.
Definition reboot : M W pyval := api_request "PUT" "/api/v1/vm.reboot" PNone.
Definition get_info : M W pyval := api_request "GET" "/api/v1/vm.info" PNone.
Definition ping : M W pyval := api_request "GET" "/api/v1/vmm.ping" PNone.

(** *** Lifecycle *)

(** The readiness loop of [start]:
    [while not os.path.exists(sock) and time.time() - start_time < timeout:
       time.sleep(0.1)].  [fuel] bounds the number of condition checks. *)
Fixpoint wait_for_socket (fuel : nat) (start_time timeout : Q) : M W unit :=
  match fuel with
  | O => out_of_fuel
  | S fuel' =>
      s <- get_self ;;
      e <- path_exists (api_socket s) ;;
      if negb e then
        now <- time ;;
        if Qltb (now - start_time) timeout then
          sleep (1 # 10) ;;
          wait_for_socket fuel' start_time timeout
        else ret tt
      else ret tt
  end.

Definition start (fuel : nat) : M W pyval :=
  s <- get_self ;;
  running <- match process s with
             | Some h => code <- poll h ;;
                         ret (match code with None => true | Some _ => false end)
             | None => ret false
             end ;;
  if running : bool then
    log WARNING "VM is already running" ;;
    ret PNone
  else
    stale <- path_exists (api_socket s) ;;
    (if stale : bool then remove (api_socket s) else ret tt) ;;
    cmd <- build_command ;;
    log INFO ("Starting VM with command: " ++ join " " cmd) ;;
    try_except
      (h <- Popen cmd ;;
       modify_self (set_process (Some h)) ;;
       let timeout := 10%Q in
       start_time <- time ;;
       wait_for_socket fuel start_time timeout ;;
       s <- get_self ;;
       ready <- path_exists (api_socket s) ;;
       if ready : bool then
         pid <- the_process "pid" ;;
         log INFO ("VM started successfully with PID: " ++ str_int pid) ;;
         ret (PBool true)
       else
         log ERROR "VM failed to start - API socket not available" ;;
         ret (PBool false))
      (fun e =>
         log ERROR ("Failed to start VM: " ++ exn_msg e) ;;
         ret (PBool false)).

Definition stop : M W pyval :=
  s <- get_self ;;
  match process s with
  | Some _ =>
      try_finally
        (try_except
           (api_request "PUT" "/api/v1/vm.shutdown" PNone ;;
            h <- the_process "wait" ;;
            wait h (Some 10%Q) ;;
            log INFO "VM stopped gracefully")
           (fun _ =>
              log WARNING "Graceful shutdown failed, forcing termination" ;;
              h <- the_process "terminate" ;;
              terminate h ;;
              h <- the_process "wait" ;;
              wait h None ;;
              ret tt))
        (modify_self (set_process None)) ;;
      ret PNone
  | None => ret PNone
  end.

Definition is_running : M W pyval :=
  s <- get_self ;;
  match process s with
  | None => ret (PBool false)
  | Some h =>
      code <- poll h ;;
      match code with
      | Some _ => ret (PBool false)
      | None =>
          ping_result <- ping ;;
          ret (PBool (negb (is_None ping_result)))
      end
  end.

Definition get_logs : M W pyval :=
  s <- get_self ;;
  match process s with
  | Some h =>
      out <- communicate h (Some 1%Q) ;;
      ret (PDict [("stdout", PStr (fst out)); ("stderr", PStr (snd out))])
  | None => ret PNone
  end.

(** *** The public operations, as one type *)

Inductive op : Type :=
| OpUpdateConfig (kwargs : dict)
| OpSaveConfig
| OpLoadConfig
| OpBuildCommand
| OpStart (fuel : nat)
| OpStop
| OpPause
| OpResume
| OpReboot
| OpGetInfo
| OpPing
| OpApiRequest (method endpoint : string) (data : pyval)
| OpIsRunning
| OpGetLogs.

Definition run_op (o : op) : M W pyval :=
  match o with
  | OpUpdateConfig kwargs => update_config kwargs
  | OpSaveConfig => save_config
  | OpLoadConfig => load_config
  | OpBuildCommand => cmd <- build_command ;; ret (PList (map PStr cmd))
  | OpStart fuel => start fuel
  | OpStop => stop
  | OpPause => pause
  | OpResume => resume
  | OpReboot => reboot
  | OpGetInfo => get_info
  | OpPing => ping
  | OpApiRequest method endpoint data => api_request method endpoint data
  | OpIsRunning => is_running
  | OpGetLogs => get_logs
  end.

(** A sequence of operations, each on the state the previous one left;
    the sequence goes on after a return or a raise, and ends at a call that
    does not come back. *)
Fixpoint run_ops (ops : list op) (st : state W) : state W :=
  match ops with
  | [] => st
  | o :: ops' =>
      match run_op o st with
      | (Ok _, st') => run_ops ops' st'
      | (Exc _, st') => run_ops ops' st'
      | (_, st') => st'
      end
  end.

End Controller.

(** ** Reading a trace *)

Definition is_spawn (ev : event) : bool :=
  match ev with EvPopen _ => true | _ => false end.

Definition is_http (ev : event) : bool :=
  match ev with EvHttp _ _ _ => true | _ => false end.

Definition is_terminate (ev : event) : bool :=
  match ev with EvTerminate _ => true | _ => false end.

Definition spawns (tr : list event) : nat := length (filter is_spawn tr).

(** The token that follows [flag] on a command line. *)
Fixpoint flag_value (flag : string) (cmd : list string) : option string :=
  match cmd with
  | a :: rest =>
      match rest with
      | b :: _ => if String.eqb a flag then Some b else flag_value flag rest
      | [] => None
      end
  | [] => None
  end.

(** The methods the transport sends, and the body it sends with each. *)
Definition supported (method : string) : bool :=
  String.eqb method "GET" || String.eqb method "PUT" || String.eqb method "POST".

Definition sent_body (method : string) (data : pyval) : pyval :=
  if String.eqb method "GET" then PNone else data.

(** The events of one API call: the socket check, at most one request
    addressed to that socket, and log lines. *)
Definition api_event (sock : string) (ev : event) : Prop :=
  match ev with
  | EvExists p => p = sock
  | EvHttp _ url _ => exists endpoint, url = api_url sock endpoint
  | EvLog _ _ => True
  | _ => False
  end.

(** The events of the readiness loop of [start]. *)
Definition poll_event (sock : string) (ev : event) : Prop :=
  match ev with
  | EvExists p => p = sock
  | EvTime | EvSleep _ => True
  | _ => False
  end.

(** The events of [start]: nothing is terminated, waited for or requested. *)
Definition start_event (sock : string) (ev : event) : Prop :=
  match ev with
  | EvExists p | EvRemove p => p = sock
  | EvPoll _ | EvPopen _ | EvTime | EvSleep _ | EvLog _ _ => True
  | _ => False
  end.

(** Where an event touches the file system or the control channel, it is at
    the controller's socket path (or, for the configuration store, at its
    configuration file). *)
Definition uses_socket (sock cfg_path : string) (ev : event) : Prop :=
  match ev with
  | EvExists p => p = sock \/ p = cfg_path
  | EvRemove p => p = sock
  | EvHttp _ url _ => exists endpoint, url = api_url sock endpoint
  | EvWriteJson p _ | EvReadJson p => p = cfg_path
  | _ => True
  end.

(** [st'] continues the trace of [st] with events that all satisfy [P]. *)
Definition extends {W} (P : event -> Prop) (st st' : state W) : Prop :=
  exists evs, trace st' = (trace st ++ evs)%list /\ Forall P evs.

(** The attributes fixed by [__init__]. *)
Definition same_identity (s s' : Self) : Prop :=
  vm_name s' = vm_name s /\ config_path s' = config_path s /\
  api_socket s' = api_socket s.

(** One or more operations later: the identity attributes are what they
    were, and every event since is at the controller's own paths. *)
Definition framed {W} (st st' : state W) : Prop :=
  same_identity (self st) (self st') /\
  extends (uses_socket (api_socket (self st)) (config_path (self st))) st st'.

(** The file system keeps what was written: after a successful write the
    path exists and reads back as the same document. *)
Definition read_after_write {W : Type} {os : OS W} : Prop :=
  forall p doc w w1,
    os_write_json p doc w = (Returns tt, w1) ->
    fst (os_path_exists p w1) = true /\
    fst (os_read_json p (snd (os_path_exists p w1))) = Returns doc.

(** An environment in which the control socket never shows up.  [Inv]
    holds of every world the controller can reach, [clk] is the time of a
    world: no call turns the clock back, a clock reading lies between the
    time before and the time after the call, sleeping takes at least as long
    as asked, the socket path is absent, and spawning succeeds. *)
Record never_ready {W : Type} {os : OS W}
       (sock : string) (Inv : W -> Prop) (clk : W -> Q) : Prop :=
  { nr_exists : forall p w, Inv w ->
      Inv (snd (os_path_exists p w)) /\ (clk w <= clk (snd (os_path_exists p w)))%Q;
    nr_absent : forall w, Inv w -> fst (os_path_exists sock w) = false;
    nr_time : forall w, Inv w ->
      Inv (snd (os_time w)) /\
      (clk w <= fst (os_time w))%Q /\ (fst (os_time w) <= clk (snd (os_time w)))%Q;
    nr_sleep : forall secs w, Inv w ->
      Inv (os_sleep secs w) /\ (clk w + secs <= clk (os_sleep secs w))%Q;
    nr_popen : forall cmd w, Inv w ->
      Inv (snd (os_popen cmd w)) /\ exists h, fst (os_popen cmd w) = Returns h;
    nr_poll : forall h w, Inv w -> Inv (snd (os_poll h w)) }.

(** ** A simulated host

    A small concrete world, used to run the controller on examples: a clock,
    a file system, a process table, and a hypervisor whose behaviour is fixed
    by three switches. *)

Record sim : Type :=
  { sim_clock : Q;
    sim_files : list string;
    sim_docs : list (string * json);
    sim_procs : list (handle * option Z);
    sim_next_pid : Z }.

Record hypervisor : Type :=
  { hv_boots : bool;              (* creates its API socket when spawned *)
    hv_reply : answer response;   (* what any API request gets *)
    hv_obeys_shutdown : bool }.   (* exits when asked to shut down *)

Definition ends_with (suffix s : string) : bool :=
  String.eqb (substring (String.length s - String.length suffix)
                        (String.length suffix) s) suffix
  && (String.length suffix <=? String.length s)%nat.

Definition sim_has (p : string) (w : sim) : bool :=
  existsb (String.eqb p) (sim_files w).

Fixpoint proc_status (h : handle) (ps : list (handle * option Z)) : option (option Z) :=
  match ps with
  | [] => None
  | (h', c) :: ps' => if (h' =? h)%Z then Some c else proc_status h ps'
  end.

Definition exit_running (code : Z) (ps : list (handle * option Z))
  : list (handle * option Z) :=
  map (fun pc => match snd pc with
                 | None => (fst pc, Some code)
                 | Some _ => pc
                 end) ps.

Definition exit_one (h : handle) (code : Z) (ps : list (handle * option Z))
  : list (handle * option Z) :=
  map (fun pc => match snd pc with
                 | None => if (fst pc =? h)%Z then (fst pc, Some code) else pc
                 | Some _ => pc
                 end) ps.

Definition sim_with_clock (t : Q) (w : sim) : sim :=
  {| sim_clock := t; sim_files := sim_files w; sim_docs := sim_docs w;
     sim_procs := sim_procs w; sim_next_pid := sim_next_pid w |}.

Definition sim_with_files (fs : list string) (w : sim) : sim :=
  {| sim_clock := sim_clock w; sim_files := fs; sim_docs := sim_docs w;
     sim_procs := sim_procs w; sim_next_pid := sim_next_pid w |}.

Definition sim_with_procs (ps : list (handle * option Z)) (w : sim) : sim :=
  {| sim_clock := sim_clock w; sim_files := sim_files w; sim_docs := sim_docs w;
     sim_procs := ps; sim_next_pid := sim_next_pid w |}.

Definition TimeoutExpired : exn :=
  {| exn_class := "TimeoutExpired"; exn_msg := "Command timed out" |}.

Definition FileNotFoundError (p : string) : exn :=
  {| exn_class := "FileNotFoundError";
     exn_msg := "[Errno 2] No such file or directory: " ++ repr_str p |}.

Definition sim_remove (p : string) (w : sim) : answer unit * sim :=
  if sim_has p w
  then (Returns tt,
        sim_with_files (filter (fun q => negb (String.eqb p q)) (sim_files w)) w)
  else (Raises (FileNotFoundError p), w).

Definition sim_popen (hv : hypervisor) (cmd : list string) (w : sim)
  : answer handle * sim :=
  let pid := sim_next_pid w in
  (Returns pid,
   {| sim_clock := sim_clock w;
      sim_files :=
        match flag_value "--api-socket" cmd with
        | Some sock => if hv_boots hv then sock :: sim_files w else sim_files w
        | None => sim_files w
        end;
      sim_docs := sim_docs w;
      sim_procs := (pid, None) :: sim_procs w;
      sim_next_pid := (pid + 1)%Z |}).

Definition sim_poll (h : handle) (w : sim) : option Z * sim :=
  match proc_status h (sim_procs w) with
  | Some c => (c, w)
  | None => (Some 0%Z, w)
  end.

Definition sim_wait (h : handle) (timeout : option Q) (w : sim) : answer Z * sim :=
  match fst (sim_poll h w) with
  | Some c => (Returns c, w)
  | None =>
      match timeout with
      | Some t => (Raises TimeoutExpired, sim_with_clock (Qred (sim_clock w + t)) w)
      | None => (Blocks, w)
      end
  end.

Definition sim_terminate (h : handle) (w : sim) : answer unit * sim :=
  (Returns tt, sim_with_procs (exit_one h (-15) (sim_procs w)) w).

Definition sim_communicate (h : handle) (timeout : option Q) (w : sim)
  : answer (string * string) * sim :=
  match fst (sim_poll h w) with
  | Some _ => (Returns ("", ""), w)
  | None =>
      match timeout with
      | Some t => (Raises TimeoutExpired, sim_with_clock (Qred (sim_clock w + t)) w)
      | None => (Blocks, w)
      end
  end.

Definition sim_http (hv : hypervisor) (method url : string) (body : pyval) (w : sim)
  : answer response * sim :=
  (hv_reply hv,
   if hv_obeys_shutdown hv && ends_with "/api/v1/vm.shutdown" url
   then sim_with_procs (exit_running 0 (sim_procs w)) w
   else w).

Definition sim_write_json (p : string) (doc : json) (w : sim) : answer unit * sim :=
  (Returns tt,
   {| sim_clock := sim_clock w;
      sim_files := if sim_has p w then sim_files w else p :: sim_files w;
      sim_docs := (p, doc) :: sim_docs w;
      sim_procs := sim_procs w;
      sim_next_pid := sim_next_pid w |}).

Fixpoint doc_at (p : string) (docs : list (string * json)) : option json :=
  match docs with
  | [] => None
  | (q, d) :: docs' => if String.eqb q p then Some d else doc_at p docs'
  end.

Definition sim_read_json (p : string) (w : sim) : answer json * sim :=
  if sim_has p w then
    match doc_at p (sim_docs w) with
    | Some d => (Returns d, w)
    | None =>
        (Raises {| exn_class := "JSONDecodeError"; exn_msg := "Expecting value" |}, w)
    end
  else (Raises (FileNotFoundError p), w).

Definition sim_os (hv : hypervisor) : OS sim :=
  {| os_path_exists := fun p w => (sim_has p w, w);
     os_remove := sim_remove;
     os_popen := sim_popen hv;
     os_time := fun w => (sim_clock w, w);
     os_sleep := fun secs w => sim_with_clock (Qred (sim_clock w + secs)) w;
     os_poll := sim_poll;
     os_wait := sim_wait;
     os_terminate := sim_terminate;
     os_communicate := sim_communicate;
     os_http := sim_http hv;
     os_write_json := sim_write_json;
     os_read_json := sim_read_json |}.

Definition empty_host : sim :=
  {| sim_clock := 0; sim_files := []; sim_docs := []; sim_procs := [];
     sim_next_pid := 4242 |}.

Definition fresh (name : string) : state sim :=
  {| self := init name None; world := empty_host; trace := [] |}.

Definition ok_reply : answer response :=
  Returns {| status_code := 200; text := "{}"; json_body := Some (PDict []) |}.

(** A hypervisor that boots, answers and obeys. *)
Definition good_hv : hypervisor :=
  {| hv_boots := true; hv_reply := ok_reply; hv_obeys_shutdown := true |}.

(** A hypervisor that never creates its socket and never exits by itself. *)
Definition dead_hv : hypervisor :=
  {| hv_boots := false;
     hv_reply := Raises {| exn_class := "ConnectionError"; exn_msg := "refused" |};
     hv_obeys_shutdown := false |}.

(** A host on which the hypervisor of the controller ["vm"] runs as process
    4242, and the controller attached to it. *)
Definition host (files : list string) (status : option Z) : sim :=
  {| sim_clock := 0; sim_files := files; sim_docs := [];
     sim_procs := [(4242%Z, status)]; sim_next_pid := 4243 |}.

Definition attached (w : sim) : state sim :=
  {| self := set_process (Some 4242%Z) (init "vm" None); world := w; trace := [] |}.

(** Running and ready: the socket is there. *)
Definition running_vm : state sim := attached (host ["/tmp/vm-api.sock"] None).

(** Running, but the socket never came up. *)
Definition hung_vm : state sim := attached (host [] None).

(** The hypervisor exited with status 1 before creating its socket, as
    after a [start] that timed out on a crashing hypervisor. *)
Definition crashed_vm : state sim := attached (host [] (Some 1%Z)).

(** A configuration with a list under a key other than [disk]. *)
Definition two_taps : dict :=
  [("net", PList [PDict [("tap", PStr "tap0")]; PDict [("tap", PStr "tap1")]])].

(** * Facts about values, documents and rendering *)

(** Induction over values that reaches inside lists and dicts. *)
Lemma pyval_nested_ind (P : pyval -> Prop) :
  P PNone ->
  (forall b, P (PBool b)) ->
  (forall z, P (PInt z)) ->
  (forall r, P (PFloat r)) ->
  (forall s, P (PStr s)) ->
  (forall l, Forall P l -> P (PList l)) ->
  (forall d, Forall (fun kv => P (snd kv)) d -> P (PDict d)) ->
  forall v, P v.
Proof.
  intros HN HB HI HF HS HL HD.
  fix IH 1.
  intros [ | b | z | r | s | l | d ].
  - exact HN.
  - apply HB.
  - apply HI.
  - apply HF.
  - apply HS.
  - apply HL. induction l as [ | x l IHl ]; constructor; [ apply IH | exact IHl ].
  - apply HD. induction d as [ | [k x] d IHd ]; constructor; [ apply IH | exact IHd ].
Qed.

Lemma dict_set_fresh k v (d : dict) :
  ~ In k (map fst d) -> dict_set k v d = (d ++ [(k, v)])%list.
Proof.
  induction d as [ | [k' v'] d IH ]; simpl; intros Hk.
  - reflexivity.
  - destruct (String.eqb_spec k' k) as [-> | _].
    + exfalso. apply Hk. now left.
    + rewrite IH; [ reflexivity | tauto ].
Qed.

(** Reading the members of an object whose names are all different gives
    them back in order. *)
Lemma fold_dict_set_nodup (l acc : dict) :
  NoDup (map fst (acc ++ l)%list) ->
  fold_left (fun a kv => dict_set (fst kv) (snd kv) a) l acc = (acc ++ l)%list.
Proof.
  revert acc. induction l as [ | [k v] l IH ]; intros acc Hnd; simpl.
  - now rewrite app_nil_r.
  - rewrite dict_set_fresh.
    + rewrite IH; rewrite <- app_assoc; [ reflexivity | exact Hnd ].
    + rewrite map_app in Hnd. simpl in Hnd.
      apply NoDup_remove_2 in Hnd. intros Hin. apply Hnd.
      apply in_or_app. now left.
Qed.

Lemma py_wf_list l : py_wf (PList l) <-> Forall py_wf l.
Proof.
  simpl. induction l as [ | x l IH ]; simpl.
  - split; [ constructor | trivial ].
  - split.
    + intros [Hx Hl]. constructor; [ exact Hx | now apply IH ].
    + intros H. inversion H; subst. split; [ assumption | now apply IH ].
Qed.

Lemma py_wf_dict d :
  py_wf (PDict d) <-> NoDup (map fst d) /\ Forall (fun kv => py_wf (snd kv)) d.
Proof.
  simpl. apply and_iff_compat_l.
  induction d as [ | x d IH ]; simpl.
  - split; [ constructor | trivial ].
  - split.
    + intros [Hx Hd]. constructor; [ exact Hx | now apply IH ].
    + intros H. inversion H; subst. split; [ assumption | now apply IH ].
Qed.

(** Decoding what the encoder produced gives the value back. *)
Lemma of_json_to_json v : py_wf v -> of_json (to_json v) = v.
Proof.
  induction v as [ | b | z | r | s | l IHl | d IHd ] using pyval_nested_ind;
    intros Hwf; try reflexivity.
  - apply py_wf_list in Hwf. cbn [to_json of_json]. f_equal.
    rewrite map_map.
    induction l as [ | x l IH ]; [ reflexivity | ].
    inversion IHl; subst. inversion Hwf; subst.
    simpl. f_equal; auto.
  - apply py_wf_dict in Hwf. destruct Hwf as [Hnd Hall].
    cbn [to_json of_json]. f_equal.
    rewrite map_map.
    assert (Hmap : map (fun x : string * pyval =>
                          let '(k, x0) := let '(k, x0) := x in (k, to_json x0) in
                          (k, of_json x0)) d = d).
    { clear Hnd. induction d as [ | [k x] d IH ]; [ reflexivity | ].
      inversion IHd; subst. inversion Hall; subst.
      simpl in *. f_equal; [ f_equal; auto | auto ]. }
    rewrite Hmap. now apply (fold_dict_set_nodup d []).
Qed.

(** [cmd.extend] in a loop appends the tokens of each item in turn. *)
Lemma extend_disks_flat_map key l cmd :
  extend_disks key l cmd =
  app cmd (flat_map (fun disk => match disk with
                                 | PDict d => ["--" ++ key; disk_str d]
                                 | _ => ["--" ++ key; py_str disk]
                                 end) l).
Proof.
  unfold extend_disks. revert cmd.
  induction l as [ | x l IH ]; intros cmd; simpl.
  - now rewrite app_nil_r.
  - rewrite IH. unfold extend.
    destruct x; rewrite <- app_assoc; reflexivity.
Qed.

Lemma extend_entry_tokens cmd entry :
  extend_entry cmd entry = (cmd ++ entry_tokens entry)%list.
Proof.
  destruct entry as [key value]. unfold extend_entry, entry_tokens, extend. simpl.
  destruct value; try reflexivity.
  destruct (String.eqb key "disk"); [ apply extend_disks_flat_map | reflexivity ].
Qed.

Lemma fold_extend_entry config cmd :
  fold_left extend_entry config cmd = (cmd ++ flat_map entry_tokens config)%list.
Proof.
  revert cmd. induction config as [ | e config IH ]; intros cmd; simpl.
  - now rewrite app_nil_r.
  - rewrite IH, extend_entry_tokens, <- app_assoc. reflexivity.
Qed.

(** * Facts about the controller *)

Ltac break :=
  repeat match goal with
    | |- context [match ?t with _ => _ end] =>
        lazymatch t with
        | context [match _ with _ => _ end] => fail
        | _ => destruct t eqn:?; simpl
        end
    end.

Ltac unfold_monad :=
  unfold the_process, the_config_dict in *;
  unfold bind, get_self, modify_self, ret, raise, out_of_fuel, try_except,
    try_finally, log, path_exists, remove, Popen, time, sleep, poll, wait,
    terminate, communicate, session_get, session_put, session_post,
    write_json, read_json, sys, sys_answer in *.

Ltac rewrite_self :=
  repeat match goal with
    | H : self _ = _ |- _ => rewrite H
    end.

Ltac solve_forall :=
  repeat first
    [ apply Forall_nil
    | apply Forall_cons
    | apply Forall_app; split
    | assumption
    | progress simpl; eauto
    | solve [ rewrite_self; simpl; auto ] ].

Ltac solve_extends :=
  unfold extends in *; simpl;
  repeat match goal with
    | H : exists _, _ /\ _ |- _ => destruct H as (? & ? & ?)
    end;
  repeat match goal with
    | H : trace _ = _ |- _ => rewrite H
    end;
  simpl; rewrite <- ?app_assoc;
  eexists; split;
  [ first [ reflexivity | symmetry; apply app_nil_r ] | solve_forall ].

Section Facts.

Context {W : Type} {os : OS W}.

Lemma extends_refl P (st : state W) : extends P st st.
Proof. exists []. split; [ now rewrite app_nil_r | constructor ]. Qed.

Lemma extends_trans P (st1 st2 st3 : state W) :
  extends P st1 st2 -> extends P st2 st3 -> extends P st1 st3.
Proof.
  intros (e1 & H1 & F1) (e2 & H2 & F2). exists (e1 ++ e2)%list. split.
  - now rewrite H2, H1, app_assoc.
  - apply Forall_app. now split.
Qed.

Lemma extends_weaken (P Q : event -> Prop) (st st' : state W) :
  (forall ev, P ev -> Q ev) -> extends P st st' -> extends Q st st'.
Proof.
  intros HPQ (evs & Ht & HF). exists evs. split; [ exact Ht | ].
  eapply Forall_impl; eauto.
Qed.

Lemma filter_none {A} (f : A -> bool) (P : A -> Prop) (l : list A) :
  (forall x, P x -> f x = false) -> Forall P l -> filter f l = [].
Proof.
  intros Hf. induction 1 as [ | x l Hx _ IH ]; simpl; [ reflexivity | ].
  now rewrite (Hf x Hx).
Qed.

(** *** The API transport *)

Lemma api_request_frame method endpoint data (st : state W) :
  self (snd (api_request method endpoint data st)) = self st /\
  extends (api_event (api_socket (self st))) st
          (snd (api_request method endpoint data st)).
Proof.
  unfold api_request, decode_response. unfold_monad. simpl.
  break; split; try reflexivity; solve_extends.
Qed.

Lemma api_request_outcome method endpoint data (st : state W) :
  (exists v, fst (api_request method endpoint data st) = Ok v) \/
  fst (api_request method endpoint data st) = Blocked.
Proof.
  unfold api_request, decode_response. unfold_monad. simpl.
  break; eauto.
Qed.

(** C6.  The API transport reports every failure as the result [None] and
    never raises: when the socket path does not exist it returns [None]
    after the existence check alone, with no request sent; for a method
    other than GET, PUT and POST it returns [None] with no request sent; a
    response whose status is not 200 and an exception raised by the request
    both give [None]. *)
Theorem api_request_reports_failure method endpoint data (st : state W) :
  let sock := api_socket (self st) in
  let out := api_request method endpoint data st in
  (forall e, fst out <> Exc e) /\
  (fst (os_path_exists sock (world st)) = false ->
   fst out = Ok PNone /\
   trace (snd out) =
     (trace st ++ [EvExists sock; EvLog ERROR "API socket not available"])%list) /\
  (supported method = false ->
   fst out = Ok PNone /\
   filter is_http (trace (snd out)) = filter is_http (trace st)) /\
  (forall w1,
      os_path_exists sock (world st) = (true, w1) ->
      supported method = true ->
      match fst (os_http method (api_url sock endpoint) (sent_body method data) w1) with
      | Returns response => status_code response <> 200%Z -> fst out = Ok PNone
      | Raises _ => fst out = Ok PNone
      | Blocks => fst out = Blocked
      end).
Proof.
  cbv zeta. repeat split.
  - intros e. destruct (api_request_outcome method endpoint data st) as [[v Hv] | Hb];
      congruence.
  - unfold api_request. unfold_monad. simpl.
    destruct (os_path_exists _ _) as [b w1]. simpl in *. subst b. reflexivity.
  - unfold api_request. unfold_monad. simpl.
    destruct (os_path_exists _ _) as [b w1]. simpl in *. subst b. simpl.
    now rewrite <- app_assoc.
  - unfold api_request, supported in *. unfold_monad. simpl.
    destruct (String.eqb method "GET"); [ discriminate | ].
    destruct (String.eqb method "PUT"); [ discriminate | ].
    destruct (String.eqb method "POST"); [ discriminate | ].
    break; reflexivity.
  - unfold api_request, supported in *. unfold_monad. simpl.
    destruct (String.eqb method "GET"); [ discriminate | ].
    destruct (String.eqb method "PUT"); [ discriminate | ].
    destruct (String.eqb method "POST"); [ discriminate | ].
    break; simpl; rewrite ?filter_app; simpl; rewrite ?app_nil_r; reflexivity.
  - intros w1 Hex Hsup.
    unfold api_request, decode_response, supported, sent_body in *. unfold_monad.
    simpl. rewrite Hex. simpl.
    destruct (String.eqb method "GET") eqn:HG.
    { apply String.eqb_eq in HG. subst method.
      destruct (os_http _ _ _ _) as [[resp | e | ] w2]; simpl; try reflexivity.
      intros Hcode. apply Z.eqb_neq in Hcode. now rewrite Hcode. }
    destruct (String.eqb method "PUT") eqn:HP.
    { apply String.eqb_eq in HP. subst method.
      destruct (os_http _ _ _ _) as [[resp | e | ] w2]; simpl; try reflexivity.
      intros Hcode. apply Z.eqb_neq in Hcode. now rewrite Hcode. }
    destruct (String.eqb method "POST") eqn:HO; [ | discriminate ].
    apply String.eqb_eq in HO. subst method.
    destruct (os_http _ _ _ _) as [[resp | e | ] w2]; simpl; try reflexivity.
    intros Hcode. apply Z.eqb_neq in Hcode. now rewrite Hcode.
Qed.

(** *** Status and logs *)

(** C5.  [is_running] is false without a handle, false (after the
    non-blocking [poll] alone) once the process has exited, and otherwise
    true exactly when [ping] returns something other than [None]. *)
Theorem is_running_composite (st : state W) :
  (process (self st) = None -> is_running st = (Ok (PBool false), st)) /\
  (forall h code w1,
      process (self st) = Some h ->
      os_poll h (world st) = (Some code, w1) ->
      is_running st = (Ok (PBool false), emit (EvPoll h) w1 st)) /\
  (forall h w1,
      process (self st) = Some h ->
      os_poll h (world st) = (None, w1) ->
      let out := ping (emit (EvPoll h) w1 st) in
      snd (is_running st) = snd out /\
      ((exists v, fst out = Ok v /\
                  fst (is_running st) = Ok (PBool (negb (is_None v)))) \/
       (fst out = Blocked /\ fst (is_running st) = Blocked))).
Proof.
  repeat split.
  - intros Hp. unfold is_running. unfold_monad. simpl. now rewrite Hp.
  - intros h code w1 Hp Hpoll. unfold is_running. unfold_monad. simpl.
    now rewrite Hp, Hpoll.
  - unfold is_running. unfold_monad. simpl. rewrite H, H0.
    now destruct (ping _) as [[ | | | ] ?].
  - unfold is_running. unfold_monad. simpl. rewrite H, H0.
    destruct (api_request_outcome "GET" "/api/v1/vmm.ping" PNone (emit (EvPoll h) w1 st))
      as [[v Hv] | Hb]; fold ping in *.
    + left. exists v. split; [ exact Hv | ].
      destruct (ping _) as [r st']. simpl in *. now subst r.
    + right. split; [ exact Hb | ].
      destruct (ping _) as [r st']. simpl in *. now subst r.
Qed.

(** C9.  [get_logs] has three distinguishable outcomes: without a handle it
    returns [None] and calls nothing; with a handle it calls [communicate]
    once with a one-second timeout and returns the two captured texts as a
    dict; and when that call raises (its timeout expiring), the exception
    reaches the caller, an outcome different from [None] and from any dict,
    the one with two empty texts included. *)
Theorem get_logs_outcomes (st : state W) :
  (process (self st) = None -> get_logs st = (Ok PNone, st)) /\
  (forall h,
      process (self st) = Some h ->
      let st1 := emit (EvCommunicate h (Some 1%Q))
                      (snd (os_communicate h (Some 1%Q) (world st))) st in
      get_logs st =
        match fst (os_communicate h (Some 1%Q) (world st)) with
        | Returns out =>
            (Ok (PDict [("stdout", PStr (fst out)); ("stderr", PStr (snd out))]), st1)
        | Raises e => (Exc e, st1)
        | Blocks => (Blocked, st1)
        end) /\
  (forall e out err,
      Exc e <> Ok PNone /\
      Exc e <> Ok (PDict [("stdout", PStr out); ("stderr", PStr err)]) /\
      Ok PNone <> Ok (PDict [("stdout", PStr out); ("stderr", PStr err)])).
Proof.
  repeat split; try discriminate.
  - intros Hp. unfold get_logs. unfold_monad. simpl. now rewrite Hp.
  - intros h Hp. unfold get_logs. unfold_monad. simpl. rewrite Hp.
    now destruct (os_communicate _ _ _) as [[out | e | ] w1].
Qed.

(** *** Stopping *)

(** C1.  Whenever [stop] comes back, by returning or by raising, the process
    handle is [None], on the graceful path and on the forced path alike; a
    normal return gives [None]. *)
Theorem stop_clears_process_handle (st : state W) r st' :
  stop st = (r, st') ->
  r <> Blocked ->
  process (self st') = None /\ r <> OutOfFuel /\ (forall v, r = Ok v -> v = PNone).
Proof.
  intros Hstop Hnb. unfold stop in Hstop. unfold_monad. simpl in Hstop.
  destruct (process (self st)) as [h | ] eqn:Hp.
  - pose proof (api_request_frame "PUT" "/api/v1/vm.shutdown" PNone st) as [Hself _].
    pose proof (api_request_outcome "PUT" "/api/v1/vm.shutdown" PNone st) as Hout.
    destruct (api_request "PUT" "/api/v1/vm.shutdown" PNone st) as [r1 st1].
    simpl in Hself, Hout. revert Hstop.
    destruct Hout as [[v ->] | ->]; simpl; rewrite ?Hself, ?Hp; simpl.
    all: break; rewrite ?Hself, ?Hp; simpl; intros Hstop; inversion Hstop; subst; simpl;
      repeat split; try congruence.
  - inversion Hstop; subst. repeat split; congruence.
Qed.

(** C2, as the code has it.  With a handle, [stop] first sends the shutdown
    request, then waits up to 10 seconds for the process to exit.  Forced
    termination, followed by a wait without timeout, happens exactly when
    that bounded wait raises.  The outcome of the request plays no part: a
    failed request is a [None] that [stop] does not look at, so after it the
    bounded wait still runs, and if the process exits within it nothing is
    terminated. *)
Theorem stop_escalates_on_wait_failure (st : state W) h :
  process (self st) = Some h ->
  let req := api_request "PUT" "/api/v1/vm.shutdown" PNone st in
  let st1 := snd req in
  let bounded := os_wait h (Some 10%Q) (world st1) in
  let out := stop st in
  extends (api_event (api_socket (self st))) st st1 /\
  match fst req with
  | Blocked => out = (Blocked, st1)
  | _ =>
      match fst bounded with
      | Returns _ =>
          fst out = Ok PNone /\
          trace (snd out) =
            (trace st1 ++ [EvWait h (Some 10%Q); EvLog INFO "VM stopped gracefully"])%list
      | Raises _ =>
          match fst (os_terminate h (snd bounded)) with
          | Returns _ =>
              trace (snd out) =
                (trace st1 ++
                   [EvWait h (Some 10%Q);
                    EvLog WARNING "Graceful shutdown failed, forcing termination";
                    EvTerminate h; EvWait h None])%list
          | _ =>
              trace (snd out) =
                (trace st1 ++
                   [EvWait h (Some 10%Q);
                    EvLog WARNING "Graceful shutdown failed, forcing termination";
                    EvTerminate h])%list
          end
      | Blocks =>
          fst out = Blocked /\
          trace (snd out) = (trace st1 ++ [EvWait h (Some 10%Q)])%list
      end
  end.
Proof.
  intros Hp. cbv zeta.
  pose proof (api_request_frame "PUT" "/api/v1/vm.shutdown" PNone st) as [Hself Hext].
  pose proof (api_request_outcome "PUT" "/api/v1/vm.shutdown" PNone st) as Hout.
  split; [ exact Hext | ].
  unfold stop. unfold_monad. simpl. rewrite Hp.
  destruct (api_request "PUT" "/api/v1/vm.shutdown" PNone st) as [r1 st1].
  simpl in *.
  destruct Hout as [[v ->] | ->]; simpl; rewrite ?Hself, ?Hp; simpl;
    [ | reflexivity ].
  destruct (os_wait h (Some 10%Q) (world st1)) as [[code | e | ] w2]; simpl;
    rewrite ?Hself, ?Hp; simpl.
  - split; [ reflexivity | now rewrite <- !app_assoc ].
  - destruct (os_terminate h w2) as [[[] | e' | ] w3]; simpl;
      rewrite ?Hself, ?Hp; simpl.
    + destruct (os_wait h None w3) as [[code | e'' | ] w4]; simpl;
        now rewrite <- !app_assoc.
    + now rewrite <- !app_assoc.
    + now rewrite <- !app_assoc.
  - split; reflexivity.
Qed.

(** *** Starting *)

Lemma wait_for_socket_frame fuel start_time timeout (st : state W) :
  let out := wait_for_socket fuel start_time timeout st in
  self (snd out) = self st /\
  extends (poll_event (api_socket (self st))) st (snd out) /\
  (fst out = Ok tt \/ fst out = OutOfFuel).
Proof.
  cbv zeta. revert st. induction fuel as [ | fuel IH ]; intros st; simpl.
  - unfold_monad. simpl. repeat split; [ apply extends_refl | now right ].
  - unfold_monad. simpl.
    destruct (os_path_exists _ _) as [[ | ] w1]; simpl.
    + repeat split; [ solve_extends | now left ].
    + destruct (os_time w1) as [now w2]; simpl.
      destruct (Qltb _ _); simpl.
      * match goal with
        | |- context [wait_for_socket fuel start_time timeout ?s] =>
            destruct (IH s) as (Hs & He & Hr);
            destruct (wait_for_socket fuel start_time timeout s) as [r st']
        end.
        simpl in *.
        assert (Hok : r = Ok tt \/ r = OutOfFuel) by exact Hr.
        destruct Hok as [-> | ->]; simpl; (split; [ exact Hs | split; [ | auto ] ]);
          solve_extends.
      * repeat split; [ solve_extends | now left ].
Qed.

Lemma poll_event_not_spawn sock ev : poll_event sock ev -> is_spawn ev = false.
Proof. now destruct ev. Qed.

Lemma spawns_app tr evs : spawns (tr ++ evs) = (spawns tr + spawns evs)%nat.
Proof. unfold spawns. now rewrite filter_app, length_app. Qed.

Lemma spawns_poll_events sock evs : Forall (poll_event sock) evs -> spawns evs = 0%nat.
Proof.
  intros H. unfold spawns.
  now rewrite (filter_none is_spawn _ evs (poll_event_not_spawn sock) H).
Qed.

(** From a controller without a handle, a [start] that leaves a handle
    behind has called [Popen] once. *)
Lemma start_spawns fuel (st : state W) :
  process (self st) = None ->
  process (self (snd (start fuel st))) <> None ->
  spawns (trace (snd (start fuel st))) = S (spawns (trace st)).
Proof.
  intros Hp. unfold start, build_command. unfold_monad. simpl. rewrite Hp. simpl.
  break;
    repeat match goal with
      | H : wait_for_socket ?f ?a ?b ?s = (_, _) |- _ =>
          let Hs := fresh "Hs" in let He := fresh "He" in
          pose proof (wait_for_socket_frame f a b s) as (Hs & He & _);
          rewrite H in Hs, He; simpl in Hs, He; clear H;
          destruct He as (evs & Ht & HF);
          apply spawns_poll_events in HF
      end;
    rewrite ?Hp in *; simpl;
    repeat match goal with
      | H : self _ = _ |- _ => rewrite H in *; simpl in *
      | H : trace _ = _ |- _ => rewrite H in *; simpl in *
      end;
    rewrite ?Hp; rewrite ?spawns_app;
    repeat match goal with
      | H : spawns _ = _ |- _ => rewrite H
      end;
    unfold spawns; simpl; try lia; try congruence.
Qed.

(** C4.  While the process is running, [start] spawns nothing and changes
    nothing in the controller: it polls the handle, logs the warning "VM is
    already running" and returns [None].  So a controller started from no
    handle, and started again while that process runs, has spawned once. *)
Theorem start_while_running_is_noop :
  (forall fuel (st : state W) h w1,
      process (self st) = Some h ->
      os_poll h (world st) = (None, w1) ->
      start fuel st =
        (Ok PNone,
         {| self := self st; world := w1;
            trace := (trace st ++ [EvPoll h; EvLog WARNING "VM is already running"])%list |})) /\
  (forall fuel1 fuel2 (st : state W) h w1,
      process (self st) = None ->
      let st1 := snd (start fuel1 st) in
      process (self st1) = Some h ->
      os_poll h (world st1) = (None, w1) ->
      spawns (trace (snd (start fuel2 st1))) = S (spawns (trace st))).
Proof.
  assert (Hnoop : forall fuel (st : state W) h w1,
      process (self st) = Some h ->
      os_poll h (world st) = (None, w1) ->
      start fuel st =
        (Ok PNone,
         {| self := self st; world := w1;
            trace := (trace st ++ [EvPoll h; EvLog WARNING "VM is already running"])%list |})).
  { intros fuel st h w1 Hp Hpoll. unfold start. unfold_monad. simpl.
    rewrite Hp. simpl. rewrite Hpoll. simpl. unfold emit. simpl.
    now rewrite <- app_assoc. }
  split; [ exact Hnoop | ].
  intros fuel1 fuel2 st h w1 Hp st1 Hp1 Hpoll.
  rewrite (Hnoop fuel2 st1 h w1 Hp1 Hpoll). simpl.
  rewrite spawns_app. simpl. subst st1.
  rewrite (start_spawns fuel1 st Hp); [ unfold spawns; simpl; lia | congruence ].
Qed.

Lemma Qltb_true x y : Qltb x y = true <-> (x < y)%Q.
Proof.
  unfold Qltb. rewrite negb_true_iff. split.
  - intros H. apply Qnot_le_lt. intros Hle. apply Qle_bool_iff in Hle. congruence.
  - intros H. destruct (Qle_bool y x) eqn:E; [ | reflexivity ].
    apply Qle_bool_iff in E. exfalso. apply (Qlt_not_le _ _ H E).
Qed.

Lemma inject_succ n :
  (inject_Z (Z.of_nat (S n)) == inject_Z (Z.of_nat n) + 1)%Q.
Proof. rewrite Nat2Z.inj_succ. unfold Z.succ. now rewrite inject_Z_plus. Qed.

(** When the socket never shows up and the clock advances, the readiness
    loop ends after at most [n + 1] checks, [n] tenths of a second before
    the deadline. *)
Lemma wait_for_socket_times_out sock Inv clk :
  never_ready sock Inv clk ->
  forall n fuel start_time (st : state W),
    Inv (world st) ->
    api_socket (self st) = sock ->
    (start_time + 10 <= clk (world st) + inject_Z (Z.of_nat n) * (1 # 10))%Q ->
    (n < fuel)%nat ->
    fst (wait_for_socket fuel start_time 10 st) = Ok tt /\
    Inv (world (snd (wait_for_socket fuel start_time 10 st))).
Proof.
  intros NR. induction n as [ | n IH ]; intros fuel start_time st Hinv Hsock Hclk Hfuel;
    (destruct fuel as [ | fuel ]; [ lia | ]); simpl; unfold_monad; simpl;
    rewrite Hsock;
    pose proof (nr_absent _ _ _ NR _ Hinv) as Habs;
    pose proof (nr_exists _ _ _ NR sock _ Hinv) as [Hinv1 Hclk1];
    destruct (os_path_exists sock (world st)) as [e w1]; cbn [fst snd] in *; subst e; simpl;
    pose proof (nr_time _ _ _ NR _ Hinv1) as (Hinv2 & Hlo & Hhi);
    destruct (os_time w1) as [now w2]; cbn [fst snd] in *;
    destruct (Qltb (now - start_time) 10) eqn:Hlt; simpl; auto.
  - apply Qltb_true in Hlt. exfalso.
    change (inject_Z (Z.of_nat 0)) with 0%Q in Hclk. lra.
  - apply Qltb_true in Hlt.
    pose proof (nr_sleep _ _ _ NR (1 # 10) _ Hinv2) as [Hinv3 Hclk3].
    apply IH; simpl; auto; [ | lia ].
    rewrite inject_succ in Hclk. lra.
Qed.

(** C3.  In an environment where the control socket never shows up, [start]
    on a controller that is not running spawns the hypervisor, gives up
    after the bounded wait and returns [False]; the handle of the spawned
    process stays in the controller, and [start] neither terminates nor
    waits for that process. *)
Theorem start_timeout_keeps_process sock Inv clk (st : state W) d :
  never_ready sock Inv clk ->
  Inv (world st) ->
  api_socket (self st) = sock ->
  config (self st) = PDict d ->
  match process (self st) with
  | Some h0 => fst (os_poll h0 (world st)) <> None
  | None => True
  end ->
  exists h,
    forall fuel, (100 < fuel)%nat ->
      let out := start fuel st in
      fst out = Ok (PBool false) /\
      process (self (snd out)) = Some h /\
      spawns (trace (snd out)) = S (spawns (trace st)) /\
      extends (start_event sock) st (snd out).
Proof.
  intros NR Hinv Hsock Hcfg Hidle.
  (* the world at which [start] goes on after the running check *)
  set (w0 := match process (self st) with
             | Some h0 => snd (os_poll h0 (world st))
             | None => world st
             end).
  assert (Hinv0 : Inv w0).
  { subst w0. destruct (process (self st)); [ now apply (nr_poll _ _ _ NR) | exact Hinv ]. }
  pose proof (nr_absent _ _ _ NR _ Hinv0) as Habs.
  pose proof (nr_exists _ _ _ NR sock _ Hinv0) as [Hinv1 _].
  destruct (os_path_exists sock w0) as [e w1] eqn:Hex. simpl in *. subst e.
  pose proof (nr_popen _ _ _ NR (build_command_of d) _ Hinv1) as [Hinv2 [h Hh]].
  exists h. intros fuel Hfuel. cbv zeta.
  destruct (os_popen (build_command_of d) w1) as [a w2] eqn:Hpo. simpl in *. subst a.
  pose proof (nr_time _ _ _ NR _ Hinv2) as (Hinv3 & Hlo & Hhi).
  destruct (os_time w2) as [t0 w3] eqn:Htime. simpl in *.
  assert (Hgo :
    forall tr,
      let stL := {| self := set_process (Some h) (self st); world := w3; trace := tr |} in
      fst (wait_for_socket fuel t0 10 stL) = Ok tt /\
      Inv (world (snd (wait_for_socket fuel t0 10 stL))) /\
      self (snd (wait_for_socket fuel t0 10 stL)) = self stL /\
      extends (poll_event sock) stL (snd (wait_for_socket fuel t0 10 stL))).
  { intros tr stL.
    destruct (wait_for_socket_times_out sock Inv clk NR 100 fuel t0 stL) as [Hr Hi];
      auto; [ change (inject_Z (Z.of_nat 100)) with 100%Q; simpl; lra | ].
    destruct (wait_for_socket_frame fuel t0 10 stL) as (Hs & He & _).
    simpl in He. rewrite Hsock in He. auto. }
  destruct (process (self st)) as [h0 | ] eqn:Hp.
  - destruct (os_poll h0 (world st)) as [[code | ] w0'] eqn:Hpoll; simpl in *;
      [ | congruence ].
    subst w0.
    unfold start, build_command. unfold_monad. simpl.
    rewrite Hp. simpl. rewrite Hpoll. simpl. rewrite Hsock, Hex. simpl.
    rewrite Hcfg. simpl. rewrite Hpo. simpl. rewrite Htime. simpl.
    unfold emit; simpl.
    match goal with
    | |- context [wait_for_socket fuel t0 10%Q ?s] =>
        destruct (Hgo (trace s)) as (Hr & Hi & Hs & He);
        simpl in Hr, Hi, Hs, He;
        destruct (wait_for_socket fuel t0 10%Q s) as [r stW]
    end.
    simpl in *. subst r. simpl. rewrite Hs. simpl. rewrite Hsock.
    pose proof (nr_absent _ _ _ NR _ Hi) as Habs'.
    destruct (os_path_exists sock (world stW)) as [e w5]. simpl in *. subst e. simpl.
    repeat split.
    + destruct He as (evs & Ht & HF). rewrite Ht. simpl.
      rewrite !spawns_app. rewrite (spawns_poll_events sock evs HF).
      unfold spawns. simpl. lia.
    + apply (extends_weaken _ (start_event sock)) in He;
        [ | intros ev Hev; destruct ev; simpl in *; try contradiction; auto ].
      solve_extends.
  - subst w0.
    unfold start, build_command. unfold_monad. simpl.
    rewrite Hp. simpl. rewrite Hsock, Hex. simpl.
    rewrite Hcfg. simpl. rewrite Hpo. simpl. rewrite Htime. simpl.
    unfold emit; simpl.
    match goal with
    | |- context [wait_for_socket fuel t0 10%Q ?s] =>
        destruct (Hgo (trace s)) as (Hr & Hi & Hs & He);
        simpl in Hr, Hi, Hs, He;
        destruct (wait_for_socket fuel t0 10%Q s) as [r stW]
    end.
    simpl in *. subst r. simpl. rewrite Hs. simpl. rewrite Hsock.
    pose proof (nr_absent _ _ _ NR _ Hi) as Habs'.
    destruct (os_path_exists sock (world stW)) as [e w5]. simpl in *. subst e. simpl.
    repeat split.
    + destruct He as (evs & Ht & HF). rewrite Ht. simpl.
      rewrite !spawns_app. rewrite (spawns_poll_events sock evs HF).
      unfold spawns. simpl. lia.
    + apply (extends_weaken _ (start_event sock)) in He;
        [ | intros ev Hev; destruct ev; simpl in *; try contradiction; auto ].
      solve_extends.
Qed.

(** *** What no operation changes *)

Lemma framed_refl (st : state W) : framed st st.
Proof. split; [ now repeat split | apply extends_refl ]. Qed.

Lemma framed_trans (st1 st2 st3 : state W) :
  framed st1 st2 -> framed st2 st3 -> framed st1 st3.
Proof.
  intros [(Hn & Hc & Hs) He] [(Hn' & Hc' & Hs') He'].
  split.
  - repeat split; congruence.
  - rewrite Hs, Hc in He'. eapply extends_trans; eauto.
Qed.

Lemma api_event_uses_socket sock cfg_path ev :
  api_event sock ev -> uses_socket sock cfg_path ev.
Proof. destruct ev; simpl; auto; contradiction. Qed.

Ltac solve_framed :=
  split;
  [ repeat split; simpl;
    rewrite_self; simpl; congruence
  | solve_extends ].

Lemma api_request_framed method endpoint data (st : state W) :
  framed st (snd (api_request method endpoint data st)).
Proof.
  destruct (api_request_frame method endpoint data st) as [Hs He].
  split.
  - rewrite Hs. now repeat split.
  - eapply extends_weaken; [ | exact He ]. apply api_event_uses_socket.
Qed.

Lemma update_config_framed kwargs (st : state W) :
  framed st (snd (update_config kwargs st)).
Proof. unfold update_config. unfold_monad. simpl. break; solve_framed. Qed.

Lemma save_config_framed (st : state W) : framed st (snd (save_config st)).
Proof. unfold save_config. unfold_monad. simpl. break; solve_framed. Qed.

Lemma load_config_framed (st : state W) : framed st (snd (load_config st)).
Proof. unfold load_config. unfold_monad. simpl. break; solve_framed. Qed.

Lemma build_command_framed (st : state W) : snd (build_command st) = st.
Proof. unfold build_command. unfold_monad. simpl. now break. Qed.

Lemma get_logs_framed (st : state W) : framed st (snd (get_logs st)).
Proof. unfold get_logs. unfold_monad. simpl. break; solve_framed. Qed.

Lemma is_running_framed (st : state W) : framed st (snd (is_running st)).
Proof.
  unfold is_running. unfold_monad. simpl.
  destruct (process (self st)) as [h | ]; simpl; [ | apply framed_refl ].
  destruct (os_poll h (world st)) as [[code | ] w1]; simpl; [ solve_framed | ].
  apply framed_trans with (emit (EvPoll h) w1 st); [ solve_framed | ].
  pose proof (api_request_framed "GET" "/api/v1/vmm.ping" PNone (emit (EvPoll h) w1 st))
    as Hf.
  fold ping in Hf. now destruct (ping _) as [[ | | | ] st'].
Qed.

Lemma stop_framed (st : state W) : framed st (snd (stop st)).
Proof.
  unfold stop. unfold_monad. simpl.
  destruct (process (self st)) as [h | ] eqn:Hp; simpl; [ | apply framed_refl ].
  pose proof (api_request_framed "PUT" "/api/v1/vm.shutdown" PNone st) as Hf.
  destruct (api_request "PUT" "/api/v1/vm.shutdown" PNone st) as [r1 st1].
  simpl in Hf. apply framed_trans with st1; [ exact Hf | ].
  destruct r1; simpl; break; solve_framed.
Qed.

Lemma start_framed fuel (st : state W) : framed st (snd (start fuel st)).
Proof.
  unfold start, build_command. unfold_monad. simpl.
  break;
    repeat match goal with
      | H : wait_for_socket ?f ?a ?b ?s = (_, _) |- _ =>
          let Hs := fresh "Hs" in let He := fresh "He" in
          pose proof (wait_for_socket_frame f a b s) as (Hs & He & _);
          rewrite H in Hs, He; simpl in Hs, He; clear H;
          apply (extends_weaken _ (uses_socket (api_socket (self st))
                                               (config_path (self st)))) in He;
          [ | intros ev Hev; destruct ev; simpl in *; auto; contradiction ]
      end;
    solve_framed.
Qed.

Lemma run_op_framed o (st : state W) : framed st (snd (run_op o st)).
Proof.
  destruct o; simpl.
  - apply update_config_framed.
  - apply save_config_framed.
  - apply load_config_framed.
  - unfold bind. pose proof (build_command_framed st) as Hb.
    destruct (build_command st) as [[ | | | ] st']; simpl in *; subst;
      apply framed_refl.
  - apply start_framed.
  - apply stop_framed.
  - apply api_request_framed.
  - apply api_request_framed.
  - apply api_request_framed.
  - apply api_request_framed.
  - apply api_request_framed.
  - apply api_request_framed.
  - apply is_running_framed.
  - apply get_logs_framed.
Qed.

Lemma run_ops_framed ops (st : state W) : framed st (run_ops ops st).
Proof.
  revert st. induction ops as [ | o ops IH ]; intros st; simpl.
  - apply framed_refl.
  - pose proof (run_op_framed o st) as Hf.
    destruct (run_op o st) as [[ | | | ] st']; simpl in Hf; auto;
      eapply framed_trans; eauto.
Qed.

(** C10.  The control-socket path is set by [__init__] from the VM name and
    no operation changes it: after any sequence of operations it is what it
    was, and every existence check, removal and request in between was made
    at that path (the only other path touched is the configuration file).
    Overriding the ["api-socket"] configuration key, through [update_config]
    or through a loaded file, changes the value rendered after
    [--api-socket] on the command line and leaves the path of the controller
    alone. *)
Theorem api_socket_is_fixed :
  (forall name path, api_socket (init name path) = "/tmp/" ++ name ++ "-api.sock") /\
  (forall ops (st : state W),
      api_socket (self (run_ops ops st)) = api_socket (self st) /\
      extends (uses_socket (api_socket (self st)) (config_path (self st)))
              st (run_ops ops st)) /\
  (forall name path p (w : W) tr,
      let st := {| self := init name path; world := w; trace := tr |} in
      let st1 := snd (update_config [("api-socket", PStr p)] st) in
      api_socket (self st1) = "/tmp/" ++ name ++ "-api.sock" /\
      exists cmd, fst (build_command st1) = Ok cmd /\
                  flag_value "--api-socket" cmd = Some p) /\
  (forall (st : state W) doc,
      fst (os_path_exists (config_path (self st)) (world st)) = true ->
      fst (os_read_json (config_path (self st))
                        (snd (os_path_exists (config_path (self st)) (world st))))
        = Returns doc ->
      config (self (snd (load_config st))) = of_json doc /\
      api_socket (self (snd (load_config st))) = api_socket (self st)).
Proof.
  repeat split.
  - destruct (run_ops_framed ops st) as [(_ & _ & Hs) _]. exact Hs.
  - destruct (run_ops_framed ops st) as [_ He]. exact He.
  - eexists. split; [ reflexivity | ]. reflexivity.
  - unfold load_config. unfold_monad. simpl.
    destruct (os_path_exists _ _) as [e w1]. simpl in *. subst e. simpl.
    destruct (os_read_json _ _) as [a w2]. simpl in *. now subst a.
  - destruct (load_config_framed st) as [(_ & _ & Hs) _]. exact Hs.
Qed.

(** *** Rendering and persistence *)

(** C7, as the code has it.  The command line is the program name followed
    by the tokens of each entry in insertion order.  An entry is one
    [--<key> <value>] pair, except the entry under the key [disk] when its
    value is a list: that one gives a [--disk] pair per element, a dict
    element rendered as comma-joined [k=v].  A list under any other key is
    one pair whose value is the [str] of the list.  So the rendering is the
    spec's whenever [disk] is the only key that holds a list. *)
Theorem build_command_renders_entries (cfg : dict) :
  (forall st : state W,
      config (self st) = PDict cfg ->
      build_command st = (Ok (build_command_of cfg), st)) /\
  build_command_of cfg = "cloud-hypervisor" :: flat_map entry_tokens cfg /\
  (forall key l, key <> "disk" ->
      entry_tokens (key, PList l) = ["--" ++ key; py_str (PList l)]) /\
  ((forall key l, In (key, PList l) cfg -> key = "disk") ->
   build_command_of cfg = "cloud-hypervisor" :: renderArguments_spec cfg).
Proof.
  assert (Hcode : build_command_of cfg
                  = "cloud-hypervisor" :: flat_map entry_tokens cfg).
  { unfold build_command_of. now rewrite fold_extend_entry. }
  split; [ | split; [ exact Hcode | split ] ].
  - intros st Hcfg. unfold build_command. unfold_monad. simpl. now rewrite Hcfg.
  - intros key l Hkey. unfold entry_tokens. simpl.
    apply String.eqb_neq in Hkey. now rewrite Hkey.
  - intros Hdisk. rewrite Hcode. clear Hcode. f_equal. unfold renderArguments_spec.
    induction cfg as [ | [key value] cfg IH ]; [ reflexivity | ].
    simpl. f_equal.
    + unfold entry_tokens. simpl. destruct value; try reflexivity.
      rewrite (Hdisk key l); [ reflexivity | now left ].
    + apply IH. intros k l Hin. apply (Hdisk k l). now right.
Qed.

(** C8.  On a file system that keeps what was written, a configuration
    saved by one controller and loaded by another controller with the same
    configuration path is the same mapping, and so renders the same command
    line. *)
Theorem save_load_round_trip (st stF : state W) v st1 :
  read_after_write ->
  py_wf (config (self st)) ->
  save_config st = (Ok v, st1) ->
  config_path (self stF) = config_path (self st) ->
  world stF = world st1 ->
  fst (load_config stF) = Ok PNone /\
  config (self (snd (load_config stF))) = config (self st) /\
  fst (build_command (snd (load_config stF))) = fst (build_command st).
Proof.
  intros Hfs Hwf Hsave Hpath Hworld.
  unfold save_config in Hsave. unfold_monad. simpl in Hsave.
  destruct (os_write_json (config_path (self st)) (to_json (config (self st))) (world st))
    as [[[] | e | ] w1] eqn:Hw; simpl in Hsave; inversion Hsave; subst; clear Hsave.
  destruct (Hfs _ _ _ _ Hw) as [Hex Hrd].
  simpl in Hworld.
  assert (Hload : fst (load_config stF) = Ok PNone /\
                  config (self (snd (load_config stF))) = config (self st)).
  { unfold load_config. unfold_monad. simpl. rewrite Hpath, Hworld.
    destruct (os_path_exists (config_path (self st)) w1) as [e w2]. simpl in *. subst e.
    simpl.
    destruct (os_read_json (config_path (self st)) w2) as [a w3]. simpl in *. subst a.
    simpl. split; [ reflexivity | now apply of_json_to_json ]. }
  destruct Hload as [Hr Hc]. repeat split; auto.
  unfold build_command. unfold_monad. simpl. rewrite Hc.
  now destruct (config (self st)).
Qed.

End Facts.

(** * The simulated host: examples *)

Lemma sim_read_after_write hv : read_after_write (os := sim_os hv).
Proof.
  intros p doc w w1 Hw. simpl in *. unfold sim_write_json in Hw.
  inversion Hw; subst; clear Hw. unfold sim_read_json, sim_has. simpl.
  assert (Hhas : existsb (String.eqb p)
                   (if existsb (String.eqb p) (sim_files w)
                    then sim_files w else p :: sim_files w) = true).
  { destruct (existsb (String.eqb p) (sim_files w)) eqn:E; [ exact E | ].
    simpl. now rewrite String.eqb_refl. }
  rewrite Hhas. split; [ reflexivity | ]. now rewrite String.eqb_refl.
Qed.

Lemma dead_host_never_ready sock :
  never_ready (os := sim_os dead_hv) sock (fun w => sim_has sock w = false) sim_clock.
Proof.
  constructor.
  - intros p w Hw. split; [ exact Hw | apply Qle_refl ].
  - intros w Hw. exact Hw.
  - intros w Hw. repeat split; auto; apply Qle_refl.
  - intros secs w Hw. split; [ exact Hw | ].
    change (sim_clock w + secs <= Qred (sim_clock w + secs))%Q.
    rewrite Qred_correct. apply Qle_refl.
  - intros cmd w Hw. split; [ | now exists (sim_next_pid w) ].
    unfold sim_has in *. simpl. now destruct (flag_value "--api-socket" cmd).
  - intros h w Hw. simpl. unfold sim_poll.
    now destruct (proc_status h (sim_procs w)).
Qed.

(** C1, on the forced path: the hung hypervisor is terminated and the
    handle is gone. *)
Lemma stop_clears_process_handle_witness :
  process (self (snd (stop (os := sim_os dead_hv) hung_vm))) = None.
Proof.
  apply (stop_clears_process_handle (os := sim_os dead_hv) hung_vm (Ok PNone)).
  - vm_compute. reflexivity.
  - discriminate.
Defined.

(** C2 as stated does not hold: here the shutdown request fails (the socket
    is missing, the transport gives [None]) and [stop] terminates nothing,
    because the process ends within the bounded wait. *)
Lemma stop_no_escalation_on_transport_failure :
  process (self crashed_vm) = Some 4242%Z /\
  fst (api_request (os := sim_os dead_hv) "PUT" "/api/v1/vm.shutdown" PNone crashed_vm)
    = Ok PNone /\
  fst (stop (os := sim_os dead_hv) crashed_vm) = Ok PNone /\
  trace (snd (stop (os := sim_os dead_hv) crashed_vm)) =
    [EvExists "/tmp/vm-api.sock"; EvLog ERROR "API socket not available";
     EvWait 4242%Z (Some 10%Q); EvLog INFO "VM stopped gracefully"] /\
  filter is_terminate (trace (snd (stop (os := sim_os dead_hv) crashed_vm))) = [].
Proof. repeat split. Qed.

(** C2, on a hung hypervisor: the bounded wait times out and [stop]
    escalates. *)
Lemma stop_escalates_on_wait_failure_witness :
  trace (snd (stop (os := sim_os dead_hv) hung_vm)) =
    [EvExists "/tmp/vm-api.sock"; EvLog ERROR "API socket not available";
     EvWait 4242%Z (Some 10%Q);
     EvLog WARNING "Graceful shutdown failed, forcing termination";
     EvTerminate 4242%Z; EvWait 4242%Z None].
Proof.
  exact (proj2 (stop_escalates_on_wait_failure (os := sim_os dead_hv) hung_vm 4242%Z
                  eq_refl)).
Defined.

(** C3, on a hypervisor that never creates its socket. *)
Lemma start_timeout_keeps_process_witness :
  exists h,
    forall fuel, (100 < fuel)%nat ->
      let out := start (os := sim_os dead_hv) fuel (fresh "vm") in
      fst out = Ok (PBool false) /\
      process (self (snd out)) = Some h /\
      spawns (trace (snd out)) = S (spawns (trace (fresh "vm"))) /\
      extends (start_event "/tmp/vm-api.sock") (fresh "vm") (snd out).
Proof.
  eapply (start_timeout_keeps_process (os := sim_os dead_hv) "/tmp/vm-api.sock"
            (fun w => sim_has "/tmp/vm-api.sock" w = false) sim_clock (fresh "vm")).
  - apply dead_host_never_ready.
  - reflexivity.
  - reflexivity.
  - reflexivity.
  - exact I.
Defined.

(** C4: the second [start] on a running hypervisor. *)
Lemma start_while_running_is_noop_witness :
  start (os := sim_os good_hv) 1 running_vm =
    (Ok PNone,
     {| self := self running_vm; world := world running_vm;
        trace := [EvPoll 4242%Z; EvLog WARNING "VM is already running"] |}) /\
  spawns (trace (snd (start (os := sim_os good_hv) 1
                        (snd (start (os := sim_os good_hv) 1 (fresh "vm")))))) = 1%nat.
Proof.
  split.
  - exact (proj1 (start_while_running_is_noop (os := sim_os good_hv))
                 1%nat running_vm 4242%Z (world running_vm) eq_refl eq_refl).
  - exact (proj2 (start_while_running_is_noop (os := sim_os good_hv))
                 1%nat 1%nat (fresh "vm") 4242%Z
                 (world (snd (start (os := sim_os good_hv) 1 (fresh "vm"))))
                 eq_refl eq_refl eq_refl).
Defined.

(** C5: a process that exited on its own is not running, before any
    [stop]. *)
Lemma is_running_composite_witness :
  is_running (os := sim_os good_hv) (fresh "vm") = (Ok (PBool false), fresh "vm") /\
  fst (is_running (os := sim_os good_hv) crashed_vm) = Ok (PBool false) /\
  fst (is_running (os := sim_os good_hv) running_vm) = Ok (PBool true).
Proof.
  pose proof (is_running_composite (os := sim_os good_hv) (fresh "vm")) as (H1 & _ & _).
  pose proof (is_running_composite (os := sim_os good_hv) crashed_vm) as (_ & H2 & _).
  pose proof (is_running_composite (os := sim_os good_hv) running_vm) as (_ & _ & H3).
  split; [ exact (H1 eq_refl) | split ].
  - now rewrite (H2 4242%Z 1%Z (world crashed_vm) eq_refl eq_refl).
  - destruct (H3 4242%Z (world running_vm) eq_refl eq_refl) as [_ [(v & Hv & Hr) | [Hb _]]].
    + rewrite Hr. vm_compute in Hv. inversion Hv; subst. reflexivity.
    + vm_compute in Hb. discriminate.
Defined.

(** C6: without the socket, a request is a [None] and nothing is sent. *)
Lemma api_request_reports_failure_witness :
  fst (api_request (os := sim_os dead_hv) "PUT" "/api/v1/vm.pause" PNone (fresh "vm"))
    = Ok PNone /\
  trace (snd (api_request (os := sim_os dead_hv) "PUT" "/api/v1/vm.pause" PNone
                (fresh "vm"))) =
    [EvExists "/tmp/vm-api.sock"; EvLog ERROR "API socket not available"] /\
  fst (api_request (os := sim_os dead_hv) "DELETE" "/api/v1/vm.info" PNone running_vm)
    = Ok PNone /\
  fst (api_request (os := sim_os dead_hv) "GET" "/api/v1/vm.info" PNone running_vm)
    = Ok PNone.
Proof.
  pose proof (api_request_reports_failure (os := sim_os dead_hv)
                "PUT" "/api/v1/vm.pause" PNone (fresh "vm")) as (_ & H1 & _).
  pose proof (api_request_reports_failure (os := sim_os dead_hv)
                "DELETE" "/api/v1/vm.info" PNone running_vm) as (_ & _ & H2 & _).
  pose proof (api_request_reports_failure (os := sim_os dead_hv)
                "GET" "/api/v1/vm.info" PNone running_vm) as (_ & _ & _ & H3).
  destruct (H1 eq_refl) as [Ha Hb].
  split; [ exact Ha | split; [ exact Hb | split ] ].
  - exact (proj1 (H2 eq_refl)).
  - exact (H3 (world running_vm) eq_refl eq_refl).
Defined.

(** C7 as stated does not hold: a list under the key [net] is rendered as
    one pair holding the [str] of the list, not as one pair per element. *)
Lemma list_under_other_key_is_one_pair :
  build_command_of two_taps =
    ["cloud-hypervisor"; "--net"; "[{'tap': 'tap0'}, {'tap': 'tap1'}]"] /\
  renderArguments_spec two_taps = ["--net"; "tap=tap0"; "--net"; "tap=tap1"] /\
  build_command_of two_taps <> "cloud-hypervisor" :: renderArguments_spec two_taps.
Proof. repeat split. discriminate. Qed.

(** C7: the default configuration is rendered as the spec says. *)
Lemma build_command_renders_entries_witness :
  build_command_of
    [("kernel", PStr "./vmlinux");
     ("disk", PList [PDict [("path", PStr "./rootfs.img")]]);
     ("cmdline", PStr "console=hvc0 root=/dev/vda rw init=/init");
     ("cpus", PStr "boot=2"); ("memory", PStr "size=256M");
     ("serial", PStr "tty"); ("console", PStr "off");
     ("api-socket", PStr "/tmp/vm-api.sock")] =
  "cloud-hypervisor" ::
    renderArguments_spec
      [("kernel", PStr "./vmlinux");
       ("disk", PList [PDict [("path", PStr "./rootfs.img")]]);
       ("cmdline", PStr "console=hvc0 root=/dev/vda rw init=/init");
       ("cpus", PStr "boot=2"); ("memory", PStr "size=256M");
       ("serial", PStr "tty"); ("console", PStr "off");
       ("api-socket", PStr "/tmp/vm-api.sock")].
Proof.
  apply (build_command_renders_entries (W := sim) _).
  intros key l Hin. simpl in Hin.
  repeat (destruct Hin as [Hin | Hin]; [ inversion Hin; reflexivity | ]).
  contradiction.
Defined.

(** C8: a second controller, with another name and the same configuration
    path, loads what the first one saved. *)
Lemma save_load_round_trip_witness :
  let st := snd (update_config
                   [("memory", PStr "size=512M")] (fresh "vm")) in
  let st1 := snd (save_config (os := sim_os good_hv) st) in
  let stF := {| self := init "other" (Some "/tmp/vm-config.json");
                world := world st1; trace := [] |} in
  fst (load_config (os := sim_os good_hv) stF) = Ok PNone /\
  config (self (snd (load_config (os := sim_os good_hv) stF))) = config (self st) /\
  fst (build_command (snd (load_config (os := sim_os good_hv) stF)))
    = fst (build_command st).
Proof.
  cbv zeta.
  apply (save_load_round_trip (os := sim_os good_hv) _ _ PNone
           (snd (save_config (os := sim_os good_hv)
                   (snd (update_config
                           [("memory", PStr "size=512M")] (fresh "vm")))))).
  - apply sim_read_after_write.
  - simpl. repeat split; auto;
      repeat (apply NoDup_cons; [ simpl; intuition discriminate | ]);
      apply NoDup_nil.
  - reflexivity.
  - reflexivity.
  - reflexivity.
Defined.

(** C9: the three outcomes, on three hosts. *)
Lemma get_logs_outcomes_witness :
  get_logs (os := sim_os dead_hv) (fresh "vm") = (Ok PNone, fresh "vm") /\
  fst (get_logs (os := sim_os dead_hv) crashed_vm) =
    Ok (PDict [("stdout", PStr ""); ("stderr", PStr "")]) /\
  fst (get_logs (os := sim_os dead_hv) hung_vm) = Exc TimeoutExpired.
Proof.
  pose proof (get_logs_outcomes (os := sim_os dead_hv) (fresh "vm")) as (H1 & _ & _).
  pose proof (get_logs_outcomes (os := sim_os dead_hv) crashed_vm) as (_ & H2 & _).
  pose proof (get_logs_outcomes (os := sim_os dead_hv) hung_vm) as (_ & H3 & _).
  split; [ exact (H1 eq_refl) | split ].
  - now rewrite (H2 4242%Z eq_refl).
  - now rewrite (H3 4242%Z eq_refl).
Defined.

(** C10: after the key is overridden and the controller started, the
    hypervisor is told the new path and the controller still polls its
    own. *)
Lemma api_socket_is_fixed_witness :
  let ops := [OpUpdateConfig [("api-socket", PStr "/run/other.sock")]; OpStart 1] in
  api_socket (self (run_ops (os := sim_os good_hv) ops (fresh "vm"))) = "/tmp/vm-api.sock" /\
  extends (uses_socket "/tmp/vm-api.sock" "/tmp/vm-config.json")
          (fresh "vm") (run_ops (os := sim_os good_hv) ops (fresh "vm")).
Proof.
  exact (proj1 (proj2 (api_socket_is_fixed (os := sim_os good_hv))) _ (fresh "vm")).
Defined.
